(** * FinancialTools: composite annual return and Sharpe ratio

    A shallow embedding of [FinancialTools.py].  The two functions of the
    module work on a pandas [DataFrame] that lives in the Python object
    store: each one copies its argument, assigns columns of the copy in
    place and returns the copy.  The embedding keeps that shape: frames
    are objects of a store, the functions are computations of a state and
    exception monad over it.

    The functions are embedded twice, statement by statement alike.

    - [FinancialTools], over [Float]: a finite cell is read as the real
      number it stands for, next to [inf], [-inf] and [nan] with the
      rules numpy applies to them.  This reading has no rounding; it is
      used for what does not depend on rounding: which object is written,
      which columns a result has, lookup failures, and how [nan] and
      [inf] travel through the operations.

    - [Generic], over an arbitrary numeric library: the cells and every
      operation of pandas, numpy and scipy that the source calls are
      parameters.  [Binary64] instantiates it with binary64 cells and
      IEEE 754 arithmetic; it is used for what the code computes on
      float64 numbers. *)

From Stdlib Require Import Reals Lra Lia ZArith Floats Uint63.
From stdpp Require Import gmap strings list.

(** ** Cells read as real numbers (numpy's elementwise operations) *)

Module Float.

Local Open Scope R_scope.

Inductive float : Type :=
| Fin (x : R)
| PInf
| NInf
| NaN.

Definition is_nan (a : float) : bool :=
  match a with NaN => true | _ => false end.

Definition fneg (a : float) : float :=
  match a with
  | Fin x => Fin (- x)
  | PInf => NInf
  | NInf => PInf
  | NaN => NaN
  end.

(** [a + b]: [nan] is absorbing and [inf + -inf] is [nan]. *)
Definition fadd (a b : float) : float :=
  match a, b with
  | NaN, _ | _, NaN => NaN
  | Fin x, Fin y => Fin (x + y)
  | PInf, NInf | NInf, PInf => NaN
  | PInf, _ | _, PInf => PInf
  | NInf, _ | _, NInf => NInf
  end.

Definition fsub (a b : float) : float := fadd a (fneg b).

(** [a / b] on numpy scalars and arrays: a division by zero raises
    nothing, it yields [inf], [-inf] or ([0 / 0]) [nan]. *)
Definition fdiv (a b : float) : float :=
  match a, b with
  | NaN, _ | _, NaN => NaN
  | Fin x, Fin y =>
      if Req_dec_T y 0 then
        if Req_dec_T x 0 then NaN
        else if Rlt_dec 0 x then PInf else NInf
      else Fin (x / y)
  | Fin _, _ => Fin 0
  | PInf, Fin y => if Rle_dec 0 y then PInf else NInf
  | NInf, Fin y => if Rle_dec 0 y then NInf else PInf
  | _, _ => NaN
  end.

(** [np.log]: [log 0 = -inf], the logarithm of a negative number is
    [nan]. *)
Definition np_log (a : float) : float :=
  match a with
  | Fin x =>
      if Rlt_dec 0 x then Fin (ln x)
      else if Req_dec_T x 0 then NInf else NaN
  | PInf => PInf
  | NInf => NaN
  | NaN => NaN
  end.

(** [np.exp]: [exp (-inf) = 0]. *)
Definition np_exp (a : float) : float :=
  match a with
  | Fin x => Fin (Rtrigo_def.exp x)
  | PInf => PInf
  | NInf => Fin 0
  | NaN => NaN
  end.

(** [np.sqrt]: the root of a negative number is [nan]. *)
Definition np_sqrt (a : float) : float :=
  match a with
  | Fin x => if Rle_dec 0 x then Fin (R_sqrt.sqrt x) else NaN
  | PInf => PInf
  | NInf => NaN
  | NaN => NaN
  end.

(** [np.power a n] for a non-negative integer exponent [n]. *)
Definition np_power (a : float) (n : nat) : float :=
  match a with
  | Fin x => Fin (x ^ n)
  | PInf => if Nat.eqb n 0 then Fin 1 else PInf
  | NInf => if Nat.eqb n 0 then Fin 1
            else if Nat.even n then PInf else NInf
  | NaN => if Nat.eqb n 0 then Fin 1 else NaN
  end.

(** [np.sum] of a one-dimensional array. *)
Fixpoint np_sum (a : list float) : float :=
  match a with
  | [] => Fin 0
  | x :: a' => fadd x (np_sum a')
  end.

(** [np.average a] without weights, i.e. [a.mean()]: the mean of the
    empty array is [0 / 0 = nan]. *)
Definition np_average (a : list float) : float :=
  fdiv (np_sum a) (Fin (INR (length a))).

(** [scipy.stats.gmean a]: [np.exp (np.average (np.log a))], the
    logarithm taken with the divide-by-zero warning silenced. *)
Definition gmean (a : list float) : float :=
  np_exp (np_average (map np_log a)).

End Float.

Export Float.

(** ** The part of pandas the module uses *)

Module Pandas.

(** A column of float64 cells. *)
Definition Series : Type := list float.

(** A frame: its number of rows (the length of its index) and its
    columns in order, each under its label. *)
Record DataFrame : Type := mkDataFrame {
  nrows : nat;
  columns : list (string * Series)
}.

(** The frames pandas builds from a mapping of labels to columns, which
    are the frames this model is meant for: the labels are distinct and
    every column has one cell per row. *)
Definition well_formed (t : DataFrame) : Prop :=
  NoDup (map fst (columns t)) /\
  Forall (fun cs => length (snd cs) = nrows t) (columns t).

(** References to frames in the object store. *)
Abbreviation ref := nat (only parsing).

Abbreviation store := (gmap nat DataFrame) (only parsing).

Inductive exn : Type :=
| KeyError (label : string)
| AttributeError.

(** Computations over the store that return or raise. *)
Definition M (A : Type) : Type := store -> store * (exn + A).

Definition ret {A} (a : A) : M A := fun h => (h, inr a).

Definition bind {A B} (m : M A) (k : A -> M B) : M B :=
  fun h =>
    match m h with
    | (h', inr a) => k a h'
    | (h', inl e) => (h', inl e)
    end.

(** Column lookup by label (the first column under that label). *)
Fixpoint get_column (c : string) (cols : list (string * Series))
  : option Series :=
  match cols with
  | [] => None
  | (c', s) :: cols' =>
      if String.eqb c c' then Some s else get_column c cols'
  end.

(** Column assignment: an existing label keeps its position and gets
    the new values, a new label is appended. *)
Fixpoint set_column (c : string) (s : Series)
  (cols : list (string * Series)) : list (string * Series) :=
  match cols with
  | [] => [(c, s)]
  | (c', s') :: cols' =>
      if String.eqb c c' then (c, s) :: cols'
      else (c', s') :: set_column c s cols'
  end.

(** [df.copy()]: a deep copy, a new object of the store. *)
Definition copy (df : ref) : M ref :=
  fun h =>
    match h !! df with
    | Some t => let q := fresh (dom h) in (<[q := t]> h, inr q)
    | None => (h, inl AttributeError)
    end.

(** [df[c]]: the column as a series; a missing label raises. *)
Definition getitem (df : ref) (c : string) : M Series :=
  fun h =>
    match h !! df with
    | Some t =>
        match get_column c (columns t) with
        | Some s => (h, inr s)
        | None => (h, inl (KeyError c))
        end
    | None => (h, inl AttributeError)
    end.

(** [df[c] = s] for a series [s] on the frame's own index: the object
    is updated in place. *)
Definition setitem (df : ref) (c : string) (s : Series) : M unit :=
  fun h =>
    match h !! df with
    | Some t =>
        (<[df := mkDataFrame (nrows t) (set_column c s (columns t))]> h,
         inr tt)
    | None => (h, inl AttributeError)
    end.

(** [df[c] = v] for a scalar [v]: broadcast to every row. *)
Definition setitem_scalar (df : ref) (c : string) (v : float) : M unit :=
  fun h =>
    match h !! df with
    | Some t =>
        (<[df := mkDataFrame (nrows t)
                   (set_column c (repeat v (nrows t)) (columns t))]> h,
         inr tt)
    | None => (h, inl AttributeError)
    end.

(** Elementwise [s + v], [s - v] and [np.power s n]. *)
Definition series_add (s : Series) (v : float) : Series :=
  map (fun x => fadd x v) s.

Definition series_sub (s : Series) (v : float) : Series :=
  map (fun x => fsub x v) s.

Definition series_power (s : Series) (n : nat) : Series :=
  map (fun x => np_power x n) s.

(** The cells that are not missing ([skipna=True], the default). *)
Definition dropna (s : Series) : Series :=
  List.filter (fun x => negb (is_nan x)) s.

(** [s.mean()]: the sum of the cells that are not missing over their
    count, [nan] when there is none. *)
Definition mean (s : Series) : float :=
  let v := dropna s in
  if Nat.ltb 0 (length v) then fdiv (np_sum v) (Fin (INR (length v)))
  else NaN.

(** [s.std()]: the sample standard deviation ([ddof=1]) of the cells
    that are not missing, [nan] when there are fewer than two. *)
Definition std (s : Series) : float :=
  let v := dropna s in
  let count := length v in
  if Nat.leb count 1 then NaN
  else
    let avg := fdiv (np_sum v) (Fin (INR count)) in
    let sqr := map (fun x => np_power (fsub avg x) 2) v in
    np_sqrt (fdiv (np_sum sqr) (Fin (INR (count - 1)))).

End Pandas.

Export Pandas.

Declare Scope py_scope.
Delimit Scope py_scope with py.
Notation "x <- m ;; k" := (bind m (fun x => k))
  (at level 100, m at next level, right associativity) : py_scope.
Notation "m ;; k" := (bind m (fun _ => k))
  (at level 100, right associativity) : py_scope.

(** ** FinancialTools.py *)

Module FinancialTools.

Local Open Scope py_scope.

Definition calculate_composite_annual_return
  (target_df : ref) (monthly_return_data_column output_column : string)
  : M ref :=
  dfr <- copy target_df ;;
  s <- getitem dfr monthly_return_data_column ;;
  setitem dfr output_column (series_add s (Fin 1)) ;;
  s <- getitem dfr output_column ;;
  setitem_scalar dfr output_column (gmean s) ;;
  s <- getitem dfr output_column ;;
  setitem dfr output_column (series_power s 12) ;;
  s <- getitem dfr output_column ;;
  setitem dfr output_column (series_sub s (Fin 1)) ;;
  ret dfr.

Definition calculate_sharpe_ratio
  (target_df : ref) (returns_column : string) (risk_free_rate : float)
  (output_column : string) : M ref :=
  dfr <- copy target_df ;;
  s <- getitem dfr returns_column ;;
  setitem dfr "excess_returns" (series_sub s risk_free_rate) ;;
  s <- getitem dfr "excess_returns" ;;
  let mean_excess_return := mean s in
  s <- getitem dfr returns_column ;;
  let std_deviation := std s in
  setitem_scalar dfr output_column (fdiv mean_excess_return std_deviation) ;;
  ret dfr.

End FinancialTools.

Export FinancialTools.

(** ** The values the two functions compute, as pure expressions *)

(** What [calculate_composite_annual_return] writes for an input column
    [s]: the successive right-hand sides of its four assignments. *)
Definition composite_annual_return (s : Series) : float :=
  fsub (np_power (gmean (series_add s (Fin 1))) 12) (Fin 1).

(** What [calculate_sharpe_ratio] writes: [ex] is the column stored under
    ['excess_returns'], [raw] the column read back under the caller's
    label for the standard deviation. *)
Definition sharpe_ratio (ex raw : Series) : float :=
  fdiv (mean ex) (std raw).

(** ** The formulas of the specification, over the reals *)








(** The table a call hands back, or the exception it raises. *)
Definition outcome (m : M ref) (h : store) : exn + option DataFrame :=
  match m h with
  | (h', inr q) => inr (h' !! q)
  | (_, inl e) => inl e
  end.

(** ** Sample frames *)

(** Three monthly returns of 2%, 3% and 1%. *)
Definition monthly_frame : DataFrame :=
  mkDataFrame 3 [("ret", [Fin (2 / 100); Fin (3 / 100); Fin (1 / 100)])].

(** The same returns next to a column the caller named
    ['excess_returns']. *)
Definition labelled_frame : DataFrame :=
  mkDataFrame 3
    [("excess_returns", [Fin 7; Fin 8; Fin 9]);
     ("ret", [Fin (2 / 100); Fin (3 / 100); Fin (1 / 100)])].

(** A single month in which everything is lost. *)
Definition total_loss_frame : DataFrame :=
  mkDataFrame 1 [("ret", [Fin (-1)])].

(** Two months, the first one a loss of 150%. *)
Definition overdrawn_frame : DataFrame :=
  mkDataFrame 2 [("ret", [Fin (- (3 / 2)); Fin (1 / 10)])].

(** Four months, the second one with no observation. *)
Definition gappy_frame : DataFrame :=
  mkDataFrame 4
    [("ret", [Fin (2 / 100); NaN; Fin (3 / 100); Fin (1 / 100)])].

(** A single month. *)
Definition single_frame : DataFrame :=
  mkDataFrame 1 [("ret", [Fin (2 / 100)])].

(** A store that holds one frame, at reference 0. *)
Definition store_of (t : DataFrame) : store := <[0 := t]> ∅.

(** ** The two functions over an arbitrary numeric library

    What the two functions do does not depend on how pandas, numpy and
    scipy compute: here the cells of a column and every library
    operation the source calls are parameters.  Statements proved at this
    level hold for float64 cells as they are (rounding, overflow,
    underflow, the order numpy sums in) and for any other dtype. *)

Module Generic.

(** The operations the source uses: the literal [1], [+], [-] and [/] on
    cells, [np.power], [scipy.stats.gmean], [Series.mean] and
    [Series.std]. *)
Record NumLib : Type := mkNumLib {
  cell : Type;
  one : cell;
  add : cell -> cell -> cell;
  sub : cell -> cell -> cell;
  div : cell -> cell -> cell;
  power : cell -> nat -> cell;
  gmean : list cell -> cell;
  mean : list cell -> cell;
  std : list cell -> cell
}.

(** A frame with cells of type [A]: the number of rows and the columns
    in order, each under its label. *)
Record Frame (A : Type) : Type := mkFrame {
  nrows : nat;
  columns : list (string * list A)
}.

Arguments mkFrame {A} _ _.
Arguments nrows {A} _.
Arguments columns {A} _.

(** Computations over a store of frames that return or raise. *)
Definition M (A R : Type) : Type :=
  gmap nat (Frame A) -> gmap nat (Frame A) * (exn + R).

Definition ret {A R} (a : R) : M A R := fun h => (h, inr a).

Definition bind {A R S} (m : M A R) (k : R -> M A S) : M A S :=
  fun h =>
    match m h with
    | (h', inr a) => k a h'
    | (h', inl e) => (h', inl e)
    end.

(** Column lookup by label. *)
Fixpoint get_column {A} (c : string) (cols : list (string * list A))
  : option (list A) :=
  match cols with
  | [] => None
  | (c', s) :: cols' =>
      if String.eqb c c' then Some s else get_column c cols'
  end.

(** Column assignment: an existing label keeps its position, a new one
    is appended. *)
Fixpoint set_column {A} (c : string) (s : list A)
  (cols : list (string * list A)) : list (string * list A) :=
  match cols with
  | [] => [(c, s)]
  | (c', s') :: cols' =>
      if String.eqb c c' then (c, s) :: cols'
      else (c', s') :: set_column c s cols'
  end.

(** [df.copy()]. *)
Definition copy {A} (df : nat) : M A nat :=
  fun h =>
    match h !! df with
    | Some t => let q := fresh (dom h) in (<[q := t]> h, inr q)
    | None => (h, inl AttributeError)
    end.

(** [df[c]]. *)
Definition getitem {A} (df : nat) (c : string) : M A (list A) :=
  fun h =>
    match h !! df with
    | Some t =>
        match get_column c (columns t) with
        | Some s => (h, inr s)
        | None => (h, inl (KeyError c))
        end
    | None => (h, inl AttributeError)
    end.

(** [df[c] = s] for a series [s]. *)
Definition setitem {A} (df : nat) (c : string) (s : list A) : M A unit :=
  fun h =>
    match h !! df with
    | Some t =>
        (<[df := mkFrame (nrows t) (set_column c s (columns t))]> h, inr tt)
    | None => (h, inl AttributeError)
    end.

(** [df[c] = v] for a scalar [v]. *)
Definition setitem_scalar {A} (df : nat) (c : string) (v : A) : M A unit :=
  fun h =>
    match h !! df with
    | Some t =>
        (<[df := mkFrame (nrows t)
                   (set_column c (repeat v (nrows t)) (columns t))]> h,
         inr tt)
    | None => (h, inl AttributeError)
    end.

Declare Scope lib_scope.
Delimit Scope lib_scope with lib.
Notation "x <- m ;; k" := (bind m (fun x => k))
  (at level 100, m at next level, right associativity) : lib_scope.
Notation "m ;; k" := (bind m (fun _ => k))
  (at level 100, right associativity) : lib_scope.

Local Open Scope lib_scope.

Definition calculate_composite_annual_return (N : NumLib)
  (target_df : nat) (monthly_return_data_column output_column : string)
  : M (cell N) nat :=
  dfr <- copy target_df ;;
  s <- getitem dfr monthly_return_data_column ;;
  setitem dfr output_column (map (fun x => add N x (one N)) s) ;;
  s <- getitem dfr output_column ;;
  setitem_scalar dfr output_column (gmean N s) ;;
  s <- getitem dfr output_column ;;
  setitem dfr output_column (map (fun x => power N x 12) s) ;;
  s <- getitem dfr output_column ;;
  setitem dfr output_column (map (fun x => sub N x (one N)) s) ;;
  ret dfr.

Definition calculate_sharpe_ratio (N : NumLib)
  (target_df : nat) (returns_column : string) (risk_free_rate : cell N)
  (output_column : string) : M (cell N) nat :=
  dfr <- copy target_df ;;
  s <- getitem dfr returns_column ;;
  setitem dfr "excess_returns" (map (fun x => sub N x risk_free_rate) s) ;;
  s <- getitem dfr "excess_returns" ;;
  let mean_excess_return := mean N s in
  s <- getitem dfr returns_column ;;
  let std_deviation := std N s in
  setitem_scalar dfr output_column
    (div N mean_excess_return std_deviation) ;;
  ret dfr.

(** A store that holds one frame, at reference 0. *)
Definition store_of {A} (t : Frame A) : gmap nat (Frame A) := <[0 := t]> ∅.

End Generic.

(** ** float64 cells as they are

    The cells are binary64 numbers with the correctly rounded [+], [-],
    [*], [/] and square root of IEEE 754, which is what numpy computes
    with.  What depends on the C library and on numpy's reduction loops
    is a parameter, known only through the cases that are the same
    everywhere. *)

Module Binary64.

Local Open Scope float_scope.

(** A count as a float64 (counts below 2^63, which every column has). *)
Definition of_nat (n : nat) : PrimFloat.float :=
  PrimFloat.of_uint63 (Uint63.of_Z (Z.of_nat n)).

Definition is_neg_zero (x : PrimFloat.float) : bool :=
  match PrimFloat.classify x with
  | NZero => true
  | _ => false
  end.

(** The C library's [log], [exp] and [pow], numpy's mean of an array and
    its [add.reduce].  The laws: C99 (Annex F) fixes [log 1 = +0],
    [exp 0 = 1] and [pow 1 y = 1]; the mean of zeros is zero however it
    is summed; fewer than 8 cells are reduced from left to right (longer
    arrays in unrolled blocks and pairwise, not fixed here; an array of
    nothing but [-0.0] is left out, its sum has had either sign). *)
Record Platform : Type := mkPlatform {
  log : PrimFloat.float -> PrimFloat.float;
  exp : PrimFloat.float -> PrimFloat.float;
  pow : PrimFloat.float -> PrimFloat.float -> PrimFloat.float;
  average : list PrimFloat.float -> PrimFloat.float;
  reduce_add : list PrimFloat.float -> PrimFloat.float;
  log_one : log 1 = 0;
  exp_zero : exp 0 = 1;
  pow_one : forall y, pow 1 y = 1;
  average_zeros : forall n, (0 < n)%nat -> average (repeat 0 n) = 0;
  reduce_add_small :
    forall a, (length a < 8)%nat ->
      existsb (fun x => negb (is_neg_zero x)) a = true ->
      reduce_add a = fold_left PrimFloat.add a 0
}.

(** [np.power x n]: the integer exponent is converted to float64 and the
    C library's [pow] is called. *)
Definition np_power (L : Platform) (x : PrimFloat.float) (n : nat)
  : PrimFloat.float :=
  pow L x (of_nat n).

(** [scipy.stats.gmean a]: [np.exp (np.average (np.log a))]. *)
Definition gmean (L : Platform) (a : list PrimFloat.float)
  : PrimFloat.float :=
  exp L (average L (map (log L) a)).

(** The number of cells that are not missing. *)
Definition count (s : list PrimFloat.float) : nat :=
  length (List.filter (fun x => negb (PrimFloat.is_nan x)) s).

(** The column with its missing cells set to zero, as pandas sums it. *)
Definition fill_zero (s : list PrimFloat.float) : list PrimFloat.float :=
  map (fun x => if PrimFloat.is_nan x then 0 else x) s.

(** [s.mean()] (pandas' [nanmean]): the sum of the zero-filled cells over
    the count, [nan] when nothing is counted. *)
Definition mean (L : Platform) (s : list PrimFloat.float)
  : PrimFloat.float :=
  if Nat.ltb 0 (count s)
  then reduce_add L (fill_zero s) / of_nat (count s)
  else nan.

(** [s.std()] (the root of pandas' two-pass [nanvar], [ddof=1]). *)
Definition std (L : Platform) (s : list PrimFloat.float)
  : PrimFloat.float :=
  if Nat.leb (count s) 1 then nan
  else
    let d := of_nat (count s) - 1 in
    let avg := reduce_add L (fill_zero s) / of_nat (count s) in
    let sqr :=
      map (fun x => if PrimFloat.is_nan x then 0
                    else (avg - x) * (avg - x)) s in
    PrimFloat.sqrt (reduce_add L sqr / d).


(** The real number a float64 cell stands for, none for [inf], [-inf]
    and [nan]. *)
Definition to_R (x : PrimFloat.float) : option R :=
  match Prim2SF x with
  | S754_zero _ => Some 0%R
  | S754_finite s m e =>
      Some (IZR (if s then Z.neg m else Z.pos m) * powerRZ 2 e)%R
  | _ => None
  end.










End Binary64.

(** ** Columns *)

Section Columns.

Implicit Types (c : string) (s : Series) (cols : list (string * Series)).

Lemma get_set_eq c s cols : get_column c (set_column c s cols) = Some s.
Proof.
  induction cols as [|[c' s'] cols IH]; simpl.
  - by rewrite String.eqb_refl.
  - destruct (String.eqb c c') eqn:E; simpl; by rewrite ?String.eqb_refl, ?E.
Qed.

Lemma get_set_ne c c' s cols :
  c <> c' -> get_column c' (set_column c s cols) = get_column c' cols.
Proof.
  intros Hne. apply String.eqb_neq in Hne.
  assert (String.eqb c' c = false) as Hne' by by rewrite String.eqb_sym.
  induction cols as [|[d s'] cols IH]; simpl.
  - by rewrite Hne'.
  - destruct (String.eqb c d) eqn:E; simpl.
    + apply String.eqb_eq in E as <-. by rewrite Hne'.
    + by rewrite IH.
Qed.

Lemma set_set_eq c s1 s2 cols :
  set_column c s2 (set_column c s1 cols) = set_column c s2 cols.
Proof.
  induction cols as [|[c' s'] cols IH]; simpl.
  - by rewrite String.eqb_refl.
  - destruct (String.eqb c c') eqn:E; simpl.
    + by rewrite String.eqb_refl.
    + by rewrite E, IH.
Qed.

End Columns.

(** ** Running the two functions *)

Section Runs.

Variables (h : store) (p : ref) (t : DataFrame).
Hypothesis Hp : h !! p = Some t.

Lemma fresh_ref_ne : fresh (dom h) <> p.
Proof.
  intros E. apply (is_fresh (dom h)). rewrite E.
  apply elem_of_dom. by exists t.
Qed.

Lemma composite_run inc out s :
  get_column inc (columns t) = Some s ->
  calculate_composite_annual_return p inc out h =
    (<[fresh (dom h) :=
        mkDataFrame (nrows t)
          (set_column out (repeat (composite_annual_return s) (nrows t))
             (columns t))]> h,
     inr (fresh (dom h))).
Proof.
  intros Hs.
  unfold calculate_composite_annual_return, bind, copy, getitem, setitem,
    setitem_scalar, ret.
  rewrite Hp. simpl.
  repeat (rewrite ?lookup_insert_eq, ?insert_insert_eq, ?get_set_eq,
            ?set_set_eq, ?Hs; simpl).
  unfold composite_annual_return, series_power, series_sub.
  by rewrite !map_repeat.
Qed.

Lemma composite_missing inc out :
  get_column inc (columns t) = None ->
  calculate_composite_annual_return p inc out h =
    (<[fresh (dom h) := t]> h, inl (KeyError inc)).
Proof.
  intros Hs.
  unfold calculate_composite_annual_return, bind, copy, getitem.
  rewrite Hp. simpl. by rewrite lookup_insert_eq, Hs.
Qed.

(** The column [calculate_sharpe_ratio] reads back under the caller's
    label after it has assigned ['excess_returns']. *)
Lemma get_after_excess rc ex s :
  get_column rc (columns t) = Some s ->
  get_column rc (set_column "excess_returns" ex (columns t)) =
    Some (if String.eqb rc "excess_returns" then ex else s).
Proof.
  intros Hs. destruct (String.eqb rc "excess_returns") eqn:E.
  - apply String.eqb_eq in E as ->. apply get_set_eq.
  - apply String.eqb_neq in E. by rewrite get_set_ne.
Qed.

Lemma sharpe_run rc rf out s :
  get_column rc (columns t) = Some s ->
  calculate_sharpe_ratio p rc rf out h =
    (<[fresh (dom h) :=
        mkDataFrame (nrows t)
          (set_column out
             (repeat
                (sharpe_ratio (series_sub s rf)
                   (if String.eqb rc "excess_returns"
                    then series_sub s rf else s))
                (nrows t))
             (set_column "excess_returns" (series_sub s rf) (columns t)))]> h,
     inr (fresh (dom h))).
Proof.
  intros Hs.
  unfold calculate_sharpe_ratio, bind, copy, getitem, setitem,
    setitem_scalar, ret.
  rewrite Hp. simpl.
  rewrite lookup_insert_eq, Hs. simpl.
  rewrite lookup_insert_eq, insert_insert_eq. simpl.
  rewrite lookup_insert_eq. simpl.
  rewrite get_set_eq. simpl.
  rewrite lookup_insert_eq. simpl.
  rewrite (get_after_excess _ _ _ Hs). simpl.
  rewrite lookup_insert_eq, insert_insert_eq. simpl.
  reflexivity.
Qed.

Lemma sharpe_missing rc rf out :
  get_column rc (columns t) = None ->
  calculate_sharpe_ratio p rc rf out h =
    (<[fresh (dom h) := t]> h, inl (KeyError rc)).
Proof.
  intros Hs.
  unfold calculate_sharpe_ratio, bind, copy, getitem.
  rewrite Hp. simpl. by rewrite lookup_insert_eq, Hs.
Qed.

End Runs.

(** ** Well-formed frames stay well-formed *)

Section Invariant.

Implicit Types (c : string) (s : Series) (cols : list (string * Series)).

Lemma set_column_labels c c' s cols :
  c' ∈ map fst (set_column c s cols) -> c' = c \/ c' ∈ map fst cols.
Proof.
  induction cols as [|[d s'] cols IH]; simpl.
  - intros ->%list_elem_of_singleton. by left.
  - destruct (String.eqb c d) eqn:E; simpl.
    + apply String.eqb_eq in E as ->. intros H. by right.
    + intros [->|H]%elem_of_cons.
      * right. apply elem_of_cons. by left.
      * destruct (IH H) as [->|H']; [by left|].
        right. apply elem_of_cons. by right.
Qed.

Lemma set_column_NoDup c s cols :
  NoDup (map fst cols) -> NoDup (map fst (set_column c s cols)).
Proof.
  induction cols as [|[d s'] cols IH]; simpl.
  - intros _. apply NoDup_singleton.
  - intros [Hd Hnd]%NoDup_cons.
    destruct (String.eqb c d) eqn:E; simpl.
    + apply String.eqb_eq in E as ->. by apply NoDup_cons.
    + apply NoDup_cons. split; [|by apply IH].
      intros [->|H]%set_column_labels; [|done].
      by rewrite String.eqb_refl in E.
Qed.

Lemma set_column_lengths c s cols n :
  length s = n ->
  Forall (fun cs => length (snd cs) = n) cols ->
  Forall (fun cs => length (snd cs) = n) (set_column c s cols).
Proof.
  intros Hs. induction 1 as [|[d s'] cols Hd Hcols IH]; simpl.
  - by repeat constructor.
  - destruct (String.eqb c d); by constructor.
Qed.

Lemma set_column_well_formed t c s :
  well_formed t -> length s = nrows t ->
  well_formed (mkDataFrame (nrows t) (set_column c s (columns t))).
Proof.
  intros [Hnd Hlen] Hs. split; simpl.
  - by apply set_column_NoDup.
  - by apply set_column_lengths.
Qed.

Lemma get_column_length t c s :
  well_formed t -> get_column c (columns t) = Some s -> length s = nrows t.
Proof.
  intros [_ Hlen]. induction Hlen as [|[d s'] cols Hd _ IH]; simpl; [done|].
  destruct (String.eqb c d); [|done]. by intros [= <-].
Qed.

(** Both functions hand back a well-formed frame when they are given
    one. *)
Lemma composite_well_formed (h : store) p t inc out s :
  h !! p = Some t -> well_formed t ->
  get_column inc (columns t) = Some s ->
  exists h' q t',
    calculate_composite_annual_return p inc out h = (h', inr q) /\
    h' !! q = Some t' /\ well_formed t'.
Proof.
  intros Hp Hwf Hs. eexists _, _, _. split; [|split].
  - by apply composite_run with (t := t).
  - apply lookup_insert_eq.
  - apply set_column_well_formed; [done|apply repeat_length].
Qed.

Lemma sharpe_well_formed (h : store) p t rc rf out s :
  h !! p = Some t -> well_formed t ->
  get_column rc (columns t) = Some s ->
  exists h' q t',
    calculate_sharpe_ratio p rc rf out h = (h', inr q) /\
    h' !! q = Some t' /\ well_formed t'.
Proof.
  intros Hp Hwf Hs. eexists _, _, _. split; [|split].
  - by apply sharpe_run with (t := t).
  - apply lookup_insert_eq.
  - pose proof (get_column_length t rc s Hwf Hs) as Hlen.
    apply (set_column_well_formed
             (mkDataFrame (nrows t)
                (set_column "excess_returns" (series_sub s rf) (columns t))));
      [|apply repeat_length].
    apply set_column_well_formed; [done|].
    unfold series_sub. by rewrite length_map.
Qed.

End Invariant.

(** ** Finite cells and the geometric mean over the reals *)

Section FiniteCells.

Local Open Scope R_scope.

Implicit Types (x y : R) (xs : list R).

Lemma np_log_pos x : 0 < x -> np_log (Fin x) = Fin (ln x).
Proof. intros Hx. simpl. by destruct (Rlt_dec 0 x). Qed.




Lemma series_add_fin xs y :
  series_add (map Fin xs) (Fin y) = map Fin (map (fun x => x + y) xs).
Proof. unfold series_add. by rewrite !map_map. Qed.



End FiniteCells.

(** ** Cells that are not finite *)

Section SpecialValues.

Local Open Scope R_scope.

Lemma fadd_nan_r a : fadd a NaN = NaN.
Proof. by destruct a. Qed.

Lemma np_sum_nan (l : list float) : In NaN l -> np_sum l = NaN.
Proof.
  induction l as [|a l IH]; simpl; [done|].
  intros [->|Hl]; [done|]. rewrite IH by done. apply fadd_nan_r.
Qed.

Lemma np_log_neg x : x < 0 -> np_log (Fin x) = NaN.
Proof.
  intros Hx. simpl.
  destruct (Rlt_dec 0 x); [lra|]. destruct (Req_dec_T x 0); [lra|done].
Qed.

Lemma np_log_zero : np_log (Fin 0) = NInf.
Proof.
  simpl. destruct (Rlt_dec 0 0); [lra|]. by destruct (Req_dec_T 0 0).
Qed.

(** One return below -1 makes the geometric mean, and with it the
    composite return, [nan], whatever the other cells hold. *)
Lemma composite_annual_return_nan (s : Series) r :
  In (Fin r) s -> r < -1 -> composite_annual_return s = NaN.
Proof.
  intros Hin Hr. unfold composite_annual_return, gmean, np_average.
  rewrite np_sum_nan; [done|].
  apply in_map_iff. exists (fadd (Fin r) (Fin 1)). split.
  - apply np_log_neg. lra.
  - unfold series_add. by apply (in_map (fun x => fadd x (Fin 1))).
Qed.

(** A sum of logarithms of numbers that are not negative, one of them
    zero, is [-inf]. *)
Lemma np_sum_log_zero xs :
  Forall (fun x => 0 <= x) xs -> In 0 xs ->
  np_sum (map np_log (map Fin xs)) = NInf.
Proof.
  intros Hall. induction Hall as [|x xs Hx Hxs IH]; [done|].
  assert (forall ys, Forall (fun y => 0 <= y) ys ->
            np_sum (map np_log (map Fin ys)) = NInf \/
            exists v, np_sum (map np_log (map Fin ys)) = Fin v) as Hsum.
  { induction 1 as [|y ys Hy _ IHy]; [right; by exists 0|].
    cbn [map np_sum].
    destruct (Rlt_dec 0 y) as [Hpos|Hn].
    - rewrite np_log_pos by done.
      destruct IHy as [->|[v ->]]; [by left|right; by eexists].
    - replace y with 0 by lra. rewrite np_log_zero.
      destruct IHy as [->|[v ->]]; by left. }
  cbn [map np_sum]. intros [->|Hin].
  - rewrite np_log_zero. by destruct (Hsum xs Hxs) as [->|[v ->]].
  - rewrite IH by done. destruct (Rlt_dec 0 x) as [Hpos|Hn].
    + by rewrite np_log_pos.
    + replace x with 0 by lra. by rewrite np_log_zero.
Qed.

(** Returns of -1 and above, one of them exactly -1: the geometric mean
    is 0 and the composite return is -1, a number. *)
Lemma composite_annual_return_total_loss xs :
  Forall (fun x => -1 <= x) xs -> In (-1) xs ->
  composite_annual_return (map Fin xs) = Fin (-1).
Proof.
  intros Hall Hin. unfold composite_annual_return, gmean, np_average.
  rewrite series_add_fin, np_sum_log_zero.
  - simpl. destruct (Rle_dec 0 _) as [|Hn].
    + simpl. f_equal. ring.
    + exfalso. apply Hn, pos_INR.
  - apply List.Forall_map. eapply Forall_impl; [exact Hall|].
    simpl. intros; lra.
  - apply in_map_iff. exists (-1). split; [lra|done].
Qed.

End SpecialValues.

(** ** Running the two functions over an arbitrary library *)

Section GenericColumns.

Context {A : Type}.

Implicit Types (c : string) (s : list A) (cols : list (string * list A)).





End GenericColumns.

Section GenericRuns.

Import Generic.

Context (N : NumLib).

Variables (h : gmap nat (Frame (cell N))) (p : nat) (t : Frame (cell N)).
Hypothesis Hp : h !! p = Some t.



End GenericRuns.

(** ** float64 cells: what is exact and what is not *)

Section Binary64Facts.

Import Binary64.

Local Open Scope float_scope.

Lemma is_neg_zero_zero : is_neg_zero 0 = false /\ is_neg_zero (-0) = true.
Proof. split; reflexivity. Qed.



(** 2^-60 as a real number. *)
Lemma to_R_tiny :
  to_R 0x1p-60 = Some (IZR 4503599627370496 * powerRZ 2 (-112))%R.
Proof. reflexivity. Qed.



End Binary64Facts.

(** ** The properties of the specification *)

Lemma store_of_lookup t : store_of t !! 0 = Some t.
Proof. apply lookup_insert_eq. Qed.

Lemma repeat_all_equal {A} (v : A) n x y :
  In x (repeat v n) -> In y (repeat v n) -> x = y.
Proof. intros Hx%repeat_spec Hy%repeat_spec. congruence. Qed.







(** C3, as the code has it. The table [calculate_sharpe_ratio] returns is
    the input table with two columns added or overwritten: first
    ['excess_returns'], which stays in the result, then the caller's
    output column.  The number of rows and every column under another
    label are those of the input. *)
Theorem C3_sharpe_ratio_frame
  (h : store) (p : ref) (t : DataFrame) (rc out : string) (rf : float)
  (s : Series) :
  h !! p = Some t ->
  get_column rc (columns t) = Some s ->
  exists h' q t' v,
    calculate_sharpe_ratio p rc rf out h = (h', inr q) /\
    h' !! q = Some t' /\
    nrows t' = nrows t /\
    columns t' =
      set_column out (repeat v (nrows t))
        (set_column "excess_returns" (series_sub s rf) (columns t)) /\
    forall c, c <> out -> c <> "excess_returns" ->
      get_column c (columns t') = get_column c (columns t).
Proof.
  intros Hp Hs. eexists _, _, _, _. split; [|split; [|split; [|split]]].
  - by apply sharpe_run with (t := t).
  - apply lookup_insert_eq.
  - done.
  - done.
  - intros c Hout Hex. cbn [columns]. by rewrite !get_set_ne.
Qed.

Lemma C3_witness :
  exists h' q t' v,
    calculate_sharpe_ratio 0 "ret" (Fin (1 / 100)) "sharpe"
      (store_of monthly_frame) = (h', inr q) /\
    h' !! q = Some t' /\
    nrows t' = 3 /\
    columns t' =
      set_column "sharpe" (repeat v 3)
        (set_column "excess_returns"
           (series_sub [Fin (2 / 100); Fin (3 / 100); Fin (1 / 100)]
              (Fin (1 / 100)))
           (columns monthly_frame)) /\
    forall c, c <> "sharpe" -> c <> "excess_returns" ->
      get_column c (columns t') = get_column c (columns monthly_frame).
Proof.
  apply (C3_sharpe_ratio_frame (store_of monthly_frame) 0 monthly_frame
           "ret" "sharpe" (Fin (1 / 100)%R)
           [Fin (2 / 100); Fin (3 / 100); Fin (1 / 100)]%R).
  - apply store_of_lookup.
  - reflexivity.
Defined.

(** C3 as stated fails: the returned table has a column
    ['excess_returns'] that the input table does not have and that is
    not the output column. *)
Lemma C3_counterexample :
  exists h' q t',
    calculate_sharpe_ratio 0 "ret" (Fin (1 / 100)) "sharpe"
      (store_of monthly_frame) = (h', inr q) /\
    h' !! q = Some t' /\
    "excess_returns" <> "sharpe" /\
    get_column "excess_returns" (columns monthly_frame) = None /\
    get_column "excess_returns" (columns t') =
      Some (series_sub [Fin (2 / 100); Fin (3 / 100); Fin (1 / 100)]
              (Fin (1 / 100))).
Proof.
  eexists _, _, _. split; [|split; [|split; [|split]]].
  - apply sharpe_run with (t := monthly_frame); [apply store_of_lookup|].
    reflexivity.
  - apply lookup_insert_eq.
  - discriminate.
  - reflexivity.
  - cbn [columns]. rewrite get_set_ne by discriminate. apply get_set_eq.
Qed.

(** C4. Neither function mutates its input table: whatever a call does,
    return or raise, the store still holds the input table itself under
    the caller's reference (so a column that was absent from it is still
    absent), and a returned table is another object. *)
Theorem C4_input_not_mutated
  (h : store) (p : ref) (t : DataFrame) (inc out : string) (rf : float) :
  h !! p = Some t ->
  ((calculate_composite_annual_return p inc out h).1 !! p = Some t /\
   (calculate_composite_annual_return p inc out h).2 <> inr p) /\
  ((calculate_sharpe_ratio p inc rf out h).1 !! p = Some t /\
   (calculate_sharpe_ratio p inc rf out h).2 <> inr p).
Proof.
  intros Hp. pose proof (fresh_ref_ne h p t Hp) as Hq.
  destruct (get_column inc (columns t)) as [s|] eqn:Hs.
  - rewrite (composite_run h p t Hp inc out s Hs).
    rewrite (sharpe_run h p t Hp inc rf out s Hs). cbn [fst snd].
    rewrite !lookup_insert_ne by done. repeat split; congruence.
  - rewrite (composite_missing h p t Hp inc out Hs).
    rewrite (sharpe_missing h p t Hp inc rf out Hs). cbn [fst snd].
    rewrite !lookup_insert_ne by done. repeat split; congruence.
Qed.

Lemma C4_witness :
  ((calculate_composite_annual_return 0 "ret" "annual"
      (store_of monthly_frame)).1 !! 0 = Some monthly_frame /\
   (calculate_composite_annual_return 0 "ret" "annual"
      (store_of monthly_frame)).2 <> inr 0) /\
  ((calculate_sharpe_ratio 0 "ret" (Fin (1 / 100)) "annual"
      (store_of monthly_frame)).1 !! 0 = Some monthly_frame /\
   (calculate_sharpe_ratio 0 "ret" (Fin (1 / 100)) "annual"
      (store_of monthly_frame)).2 <> inr 0).
Proof.
  apply (C4_input_not_mutated (store_of monthly_frame) 0 monthly_frame
           "ret" "annual" (Fin (1 / 100)%R)).
  apply store_of_lookup.
Defined.

(** C5, as the code has it. When the input column holds a periodic
    return below -1, [calculate_composite_annual_return] raises nothing
    and returns a table whose output column is not-a-number in every
    row. *)
Theorem C5_return_below_minus_one_is_nan
  (h : store) (p : ref) (t : DataFrame) (inc out : string) (s : Series)
  (r : R) :
  h !! p = Some t ->
  get_column inc (columns t) = Some s ->
  In (Fin r) s ->
  (r < -1)%R ->
  exists h' q t',
    calculate_composite_annual_return p inc out h = (h', inr q) /\
    h' !! q = Some t' /\
    get_column out (columns t') = Some (repeat NaN (nrows t)).
Proof.
  intros Hp Hs Hin Hr. eexists _, _, _. split; [|split].
  - by apply composite_run with (t := t).
  - apply lookup_insert_eq.
  - cbn [columns]. rewrite get_set_eq.
    by rewrite (composite_annual_return_nan s r).
Qed.

Lemma C5_witness :
  exists h' q t',
    calculate_composite_annual_return 0 "ret" "annual"
      (store_of overdrawn_frame) = (h', inr q) /\
    h' !! q = Some t' /\
    get_column "annual" (columns t') = Some [NaN; NaN].
Proof.
  apply (C5_return_below_minus_one_is_nan (store_of overdrawn_frame) 0
           overdrawn_frame "ret" "annual"
           [Fin (- (3 / 2)); Fin (1 / 10)]%R (- (3 / 2))%R).
  - apply store_of_lookup.
  - reflexivity.
  - left. reflexivity.
  - lra.
Defined.

(** C5 as stated fails at a return of exactly -1: the call returns, and
    the output column holds the number -1, not not-a-number. *)
Lemma C5_counterexample :
  exists h' q t',
    calculate_composite_annual_return 0 "ret" "annual"
      (store_of total_loss_frame) = (h', inr q) /\
    h' !! q = Some t' /\
    get_column "annual" (columns t') = Some [Fin (-1)] /\
    Fin (-1) <> NaN.
Proof.
  eexists _, _, _. split; [|split; [|split]].
  - apply composite_run with (t := total_loss_frame);
      [apply store_of_lookup|reflexivity].
  - apply lookup_insert_eq.
  - cbn [columns]. rewrite get_set_eq.
    change [Fin (-1)%R] with (map Fin [(-1)%R]) at 1.
    rewrite composite_annual_return_total_loss; [done| |by left].
    apply List.Forall_cons; [lra|apply List.Forall_nil].
  - discriminate.
Qed.

(** C6. With an input column that exists, the output column of the table
    either function returns has as many rows as the input table, and its
    values are all equal. *)
Theorem C6_output_column_is_broadcast
  (h : store) (p : ref) (t : DataFrame) (inc out : string) (rf : float)
  (s : Series) :
  h !! p = Some t ->
  get_column inc (columns t) = Some s ->
  (exists h' q t' col,
     calculate_composite_annual_return p inc out h = (h', inr q) /\
     h' !! q = Some t' /\
     get_column out (columns t') = Some col /\
     length col = nrows t /\
     forall x y, In x col -> In y col -> x = y) /\
  (exists h' q t' col,
     calculate_sharpe_ratio p inc rf out h = (h', inr q) /\
     h' !! q = Some t' /\
     get_column out (columns t') = Some col /\
     length col = nrows t /\
     forall x y, In x col -> In y col -> x = y).
Proof.
  intros Hp Hs. split; eexists _, _, _, _.
  - split; [by apply composite_run with (t := t)|].
    split; [apply lookup_insert_eq|]. cbn [columns].
    split; [apply get_set_eq|].
    split; [apply repeat_length|apply repeat_all_equal].
  - split; [by apply sharpe_run with (t := t)|].
    split; [apply lookup_insert_eq|]. cbn [columns].
    split; [apply get_set_eq|].
    split; [apply repeat_length|apply repeat_all_equal].
Qed.

Lemma C6_witness :
  (exists h' q t' col,
     calculate_composite_annual_return 0 "ret" "out"
       (store_of monthly_frame) = (h', inr q) /\
     h' !! q = Some t' /\
     get_column "out" (columns t') = Some col /\
     length col = 3 /\
     forall x y, In x col -> In y col -> x = y) /\
  (exists h' q t' col,
     calculate_sharpe_ratio 0 "ret" (Fin (1 / 100)) "out"
       (store_of monthly_frame) = (h', inr q) /\
     h' !! q = Some t' /\
     get_column "out" (columns t') = Some col /\
     length col = 3 /\
     forall x y, In x col -> In y col -> x = y).
Proof.
  apply (C6_output_column_is_broadcast (store_of monthly_frame) 0
           monthly_frame "ret" "out" (Fin (1 / 100)%R)
           [Fin (2 / 100); Fin (3 / 100); Fin (1 / 100)]%R).
  - apply store_of_lookup.
  - reflexivity.
Defined.




(** C8. With an input column label that the table does not have, each
    function raises the lookup failure for that label; it returns no
    table. *)
Theorem C8_missing_column_raises
  (h : store) (p : ref) (t : DataFrame) (inc out : string) (rf : float) :
  h !! p = Some t ->
  get_column inc (columns t) = None ->
  (calculate_composite_annual_return p inc out h).2 = inl (KeyError inc) /\
  (calculate_sharpe_ratio p inc rf out h).2 = inl (KeyError inc).
Proof.
  intros Hp Hs.
  rewrite (composite_missing h p t Hp inc out Hs).
  by rewrite (sharpe_missing h p t Hp inc rf out Hs).
Qed.

Lemma C8_witness :
  (calculate_composite_annual_return 0 "returns" "annual"
     (store_of monthly_frame)).2 = inl (KeyError "returns") /\
  (calculate_sharpe_ratio 0 "returns" (Fin (1 / 100)) "annual"
     (store_of monthly_frame)).2 = inl (KeyError "returns").
Proof.
  apply (C8_missing_column_raises (store_of monthly_frame) 0 monthly_frame
           "returns" "annual" (Fin (1 / 100)%R)).
  - apply store_of_lookup.
  - reflexivity.
Defined.

(** C9. Each function is deterministic in its inputs: two calls with the
    same column labels (and risk-free rate) on references that hold the
    same table, in whatever two states of the store, both raise the same
    exception or both return the same table. *)
Theorem C9_deterministic
  (h1 h2 : store) (p1 p2 : ref) (t : DataFrame) (inc out : string)
  (rf : float) :
  h1 !! p1 = Some t ->
  h2 !! p2 = Some t ->
  outcome (calculate_composite_annual_return p1 inc out) h1 =
    outcome (calculate_composite_annual_return p2 inc out) h2 /\
  outcome (calculate_sharpe_ratio p1 inc rf out) h1 =
    outcome (calculate_sharpe_ratio p2 inc rf out) h2.
Proof.
  intros H1 H2. unfold outcome.
  destruct (get_column inc (columns t)) as [s|] eqn:Hs.
  - rewrite (composite_run h1 p1 t H1 inc out s Hs).
    rewrite (composite_run h2 p2 t H2 inc out s Hs).
    rewrite (sharpe_run h1 p1 t H1 inc rf out s Hs).
    rewrite (sharpe_run h2 p2 t H2 inc rf out s Hs).
    by rewrite !lookup_insert_eq.
  - rewrite (composite_missing h1 p1 t H1 inc out Hs).
    rewrite (composite_missing h2 p2 t H2 inc out Hs).
    rewrite (sharpe_missing h1 p1 t H1 inc rf out Hs).
    by rewrite (sharpe_missing h2 p2 t H2 inc rf out Hs).
Qed.

(** The second call runs in the store the first call left behind. *)
Lemma C9_witness :
  let h1 := store_of monthly_frame in
  let h2 := (calculate_sharpe_ratio 0 "ret" (Fin (1 / 100)) "out" h1).1 in
  outcome (calculate_composite_annual_return 0 "ret" "out") h1 =
    outcome (calculate_composite_annual_return 0 "ret" "out") h2 /\
  outcome (calculate_sharpe_ratio 0 "ret" (Fin (1 / 100)) "out") h1 =
    outcome (calculate_sharpe_ratio 0 "ret" (Fin (1 / 100)) "out") h2.
Proof.
  intros h1 h2.
  apply (C9_deterministic h1 h2 0 0 monthly_frame "ret" "out"
           (Fin (1 / 100)%R)).
  - apply store_of_lookup.
  - subst h2.
    rewrite (sharpe_run h1 0 monthly_frame (store_of_lookup _) "ret"
               (Fin (1 / 100)%R) "out" _ eq_refl).
    cbn [fst]. rewrite lookup_insert_ne; [apply store_of_lookup|].
    apply (fresh_ref_ne h1 0 monthly_frame), store_of_lookup.
Defined.

(** C10. When the input table already has a column ['excess_returns']
    and the output column has another label, the table
    [calculate_sharpe_ratio] returns holds under ['excess_returns'] the
    returns minus the risk-free rate, not the caller's data. *)
Theorem C10_excess_returns_overwritten
  (h : store) (p : ref) (t : DataFrame) (rc out : string) (rf : float)
  (s old : Series) :
  h !! p = Some t ->
  get_column "excess_returns" (columns t) = Some old ->
  get_column rc (columns t) = Some s ->
  out <> "excess_returns" ->
  exists h' q t',
    calculate_sharpe_ratio p rc rf out h = (h', inr q) /\
    h' !! q = Some t' /\
    get_column "excess_returns" (columns t') = Some (series_sub s rf).
Proof.
  intros Hp _ Hs Hout. eexists _, _, _. split; [|split].
  - by apply sharpe_run with (t := t).
  - apply lookup_insert_eq.
  - cbn [columns]. rewrite get_set_ne by done. apply get_set_eq.
Qed.

Lemma C10_witness :
  exists h' q t',
    calculate_sharpe_ratio 0 "ret" (Fin (1 / 100)) "sharpe"
      (store_of labelled_frame) = (h', inr q) /\
    h' !! q = Some t' /\
    get_column "excess_returns" (columns t') =
      Some (series_sub [Fin (2 / 100); Fin (3 / 100); Fin (1 / 100)]
              (Fin (1 / 100))).
Proof.
  apply (C10_excess_returns_overwritten (store_of labelled_frame) 0
           labelled_frame "ret" "sharpe" (Fin (1 / 100)%R)
           [Fin (2 / 100); Fin (3 / 100); Fin (1 / 100)]%R
           [Fin 7; Fin 8; Fin 9]%R).
  - apply store_of_lookup.
  - reflexivity.
  - reflexivity.
  - discriminate.
Defined.

(** ** Further properties of the two functions *)

Section MoreColumns.

Implicit Types (c : string) (s : Series) (cols : list (string * Series)).

Lemma set_column_id c s cols :
  get_column c cols = Some s -> set_column c s cols = cols.
Proof.
  induction cols as [|[d s'] cols IH]; simpl; [done|].
  destruct (String.eqb c d) eqn:E.
  - apply String.eqb_eq in E as ->. by intros [= ->].
  - intros H. by rewrite IH.
Qed.

Lemma set_column_present_labels c s s' cols :
  get_column c cols = Some s' ->
  map fst (set_column c s cols) = map fst cols.
Proof.
  induction cols as [|[d s''] cols IH]; simpl; [done|].
  destruct (String.eqb c d) eqn:E; simpl.
  - apply String.eqb_eq in E as ->. done.
  - intros H. by rewrite IH.
Qed.

Lemma set_column_absent_labels c s cols :
  get_column c cols = None ->
  map fst (set_column c s cols) = map fst cols ++ [c].
Proof.
  induction cols as [|[d s''] cols IH]; simpl; [done|].
  destruct (String.eqb c d) eqn:E; simpl; [done|].
  intros H. by rewrite IH.
Qed.

End MoreColumns.

(** X1. The table [calculate_composite_annual_return] returns has the
    rows of the input table and, under every label but the output
    label, the column of the input table.  Its labels are those of the
    input in their order, with the output label appended when the input
    does not have it. *)
Theorem X1_composite_frame
  (h : store) (p : ref) (t : DataFrame) (inc out : string) (s : Series) :
  h !! p = Some t ->
  get_column inc (columns t) = Some s ->
  exists h' q t',
    calculate_composite_annual_return p inc out h = (h', inr q) /\
    h' !! q = Some t' /\
    nrows t' = nrows t /\
    (forall c, c <> out ->
       get_column c (columns t') = get_column c (columns t)) /\
    map fst (columns t') =
      match get_column out (columns t) with
      | Some _ => map fst (columns t)
      | None => map fst (columns t) ++ [out]
      end.
Proof.
  intros Hp Hs. eexists _, _, _. split; [|split; [|split; [|split]]].
  - by apply composite_run with (t := t).
  - apply lookup_insert_eq.
  - done.
  - intros c Hc. cbn [columns]. by rewrite get_set_ne.
  - cbn [columns]. destruct (get_column out (columns t)) eqn:Ho.
    + by eapply set_column_present_labels.
    + by apply set_column_absent_labels.
Qed.

Lemma X1_witness :
  exists h' q t',
    calculate_composite_annual_return 0 "ret" "annual"
      (store_of labelled_frame) = (h', inr q) /\
    h' !! q = Some t' /\
    nrows t' = 3 /\
    (forall c, c <> "annual" ->
       get_column c (columns t') = get_column c (columns labelled_frame)) /\
    map fst (columns t') = ["excess_returns"; "ret"; "annual"].
Proof.
  apply (X1_composite_frame (store_of labelled_frame) 0 labelled_frame
           "ret" "annual"
           [Fin (2 / 100); Fin (3 / 100); Fin (1 / 100)]%R).
  - apply store_of_lookup.
  - reflexivity.
Defined.

(** X2. Neither function changes or removes any object the store held
    before the call, whether the call returns or raises: the store after
    the call extends the store before it. *)
Theorem X2_store_only_grows
  (h : store) (p : ref) (t : DataFrame) (inc out : string) (rf : float) :
  h !! p = Some t ->
  h ⊆ (calculate_composite_annual_return p inc out h).1 /\
  h ⊆ (calculate_sharpe_ratio p inc rf out h).1.
Proof.
  intros Hp.
  assert (h !! fresh (dom h) = None) as Hfresh.
  { apply not_elem_of_dom, is_fresh. }
  destruct (get_column inc (columns t)) as [s|] eqn:Hs.
  - rewrite (composite_run h p t Hp inc out s Hs).
    rewrite (sharpe_run h p t Hp inc rf out s Hs). cbn [fst].
    split; by apply insert_subseteq.
  - rewrite (composite_missing h p t Hp inc out Hs).
    rewrite (sharpe_missing h p t Hp inc rf out Hs). cbn [fst].
    split; by apply insert_subseteq.
Qed.

Lemma X2_witness :
  store_of monthly_frame ⊆
    (calculate_composite_annual_return 0 "ret" "annual"
       (store_of monthly_frame)).1 /\
  store_of monthly_frame ⊆
    (calculate_sharpe_ratio 0 "ret" (Fin (1 / 100)) "annual"
       (store_of monthly_frame)).1.
Proof.
  apply (X2_store_only_grows (store_of monthly_frame) 0 monthly_frame
           "ret" "annual" (Fin (1 / 100)%R)).
  apply store_of_lookup.
Defined.

(** X3. Given a table whose labels are distinct and whose columns all
    have one cell per row, both functions return a table of that kind:
    under distinct labels, every column with one cell per row. *)
Theorem X3_well_formed_preserved
  (h : store) (p : ref) (t : DataFrame) (inc out : string) (rf : float)
  (s : Series) :
  h !! p = Some t ->
  well_formed t ->
  get_column inc (columns t) = Some s ->
  (exists h' q t',
     calculate_composite_annual_return p inc out h = (h', inr q) /\
     h' !! q = Some t' /\ well_formed t') /\
  (exists h' q t',
     calculate_sharpe_ratio p inc rf out h = (h', inr q) /\
     h' !! q = Some t' /\ well_formed t').
Proof.
  intros Hp Hwf Hs. split.
  - by eapply composite_well_formed.
  - by eapply sharpe_well_formed.
Qed.

Lemma monthly_frame_well_formed : well_formed monthly_frame.
Proof.
  split; simpl.
  - apply NoDup_singleton.
  - by repeat constructor.
Qed.

Lemma X3_witness :
  (exists h' q t',
     calculate_composite_annual_return 0 "ret" "annual"
       (store_of monthly_frame) = (h', inr q) /\
     h' !! q = Some t' /\ well_formed t') /\
  (exists h' q t',
     calculate_sharpe_ratio 0 "ret" (Fin (1 / 100)) "annual"
       (store_of monthly_frame) = (h', inr q) /\
     h' !! q = Some t' /\ well_formed t').
Proof.
  apply (X3_well_formed_preserved (store_of monthly_frame) 0 monthly_frame
           "ret" "annual" (Fin (1 / 100)%R)
           [Fin (2 / 100); Fin (3 / 100); Fin (1 / 100)]%R).
  - apply store_of_lookup.
  - apply monthly_frame_well_formed.
  - reflexivity.
Defined.

(** X4. When the output label differs from the input label, calling
    [calculate_composite_annual_return] again on the table it returned,
    with the same labels, returns an equal table. *)
Theorem X4_composite_again
  (h : store) (p : ref) (t : DataFrame) (inc out : string) (s : Series) :
  h !! p = Some t ->
  get_column inc (columns t) = Some s ->
  out <> inc ->
  exists h1 q1 t1 h2 q2,
    calculate_composite_annual_return p inc out h = (h1, inr q1) /\
    h1 !! q1 = Some t1 /\
    calculate_composite_annual_return q1 inc out h1 = (h2, inr q2) /\
    h2 !! q2 = Some t1.
Proof.
  intros Hp Hs Hne.
  set (t1 := mkDataFrame (nrows t)
               (set_column out
                  (repeat (composite_annual_return s) (nrows t))
                  (columns t))).
  set (h1 := <[fresh (dom h) := t1]> h).
  assert (h1 !! fresh (dom h) = Some t1) as H1 by apply lookup_insert_eq.
  assert (get_column inc (columns t1) = Some s) as Hs1.
  { cbn [t1 columns]. by rewrite get_set_ne. }
  exists h1, (fresh (dom h)), t1. eexists _, _.
  split; [|split; [done|split]].
  - by apply composite_run with (t := t).
  - by apply composite_run with (t := t1).
  - rewrite lookup_insert_eq. f_equal. unfold t1. cbn [nrows columns].
    by rewrite set_set_eq.
Qed.

Lemma X4_witness :
  exists h1 q1 t1 h2 q2,
    calculate_composite_annual_return 0 "ret" "annual"
      (store_of monthly_frame) = (h1, inr q1) /\
    h1 !! q1 = Some t1 /\
    calculate_composite_annual_return q1 "ret" "annual" h1 = (h2, inr q2) /\
    h2 !! q2 = Some t1.
Proof.
  apply (X4_composite_again (store_of monthly_frame) 0 monthly_frame
           "ret" "annual"
           [Fin (2 / 100); Fin (3 / 100); Fin (1 / 100)]%R).
  - apply store_of_lookup.
  - reflexivity.
  - discriminate.
Defined.

(** X5. When the returns label is neither the output label nor
    ['excess_returns'], calling [calculate_sharpe_ratio] again on the
    table it returned, with the same labels and rate, returns an equal
    table. *)
Theorem X5_sharpe_again
  (h : store) (p : ref) (t : DataFrame) (rc out : string) (rf : float)
  (s : Series) :
  h !! p = Some t ->
  get_column rc (columns t) = Some s ->
  rc <> out ->
  rc <> "excess_returns" ->
  exists h1 q1 t1 h2 q2,
    calculate_sharpe_ratio p rc rf out h = (h1, inr q1) /\
    h1 !! q1 = Some t1 /\
    calculate_sharpe_ratio q1 rc rf out h1 = (h2, inr q2) /\
    h2 !! q2 = Some t1.
Proof.
  intros Hp Hs Hout Hex.
  pose proof (sharpe_run h p t Hp rc rf out s Hs) as Hrun.
  apply String.eqb_neq in Hex as Hexb. rewrite Hexb in Hrun.
  set (v := sharpe_ratio (series_sub s rf) s) in *.
  set (cols1 := set_column out (repeat v (nrows t))
                  (set_column "excess_returns" (series_sub s rf)
                     (columns t))) in *.
  set (t1 := mkDataFrame (nrows t) cols1) in *.
  set (h1 := <[fresh (dom h) := t1]> h) in *.
  assert (h1 !! fresh (dom h) = Some t1) as H1 by apply lookup_insert_eq.
  assert (get_column rc (columns t1) = Some s) as Hs1.
  { cbn [t1 columns]. unfold cols1. by rewrite !get_set_ne. }
  pose proof (sharpe_run h1 (fresh (dom h)) t1 H1 rc rf out s Hs1) as Hrun2.
  rewrite Hexb in Hrun2. fold v in Hrun2. cbn [t1 nrows columns] in Hrun2.
  exists h1, (fresh (dom h)), t1. eexists _, _.
  split; [exact Hrun|split; [exact H1|split; [exact Hrun2|]]].
  rewrite lookup_insert_eq. f_equal. unfold t1. f_equal.
  destruct (String.eqb out "excess_returns") eqn:E.
  - apply String.eqb_eq in E as ->. unfold cols1. by rewrite !set_set_eq.
  - apply String.eqb_neq in E.
    rewrite (set_column_id "excess_returns" (series_sub s rf) cols1).
    + unfold cols1. by rewrite set_set_eq.
    + unfold cols1. rewrite get_set_ne by done. apply get_set_eq.
Qed.

Lemma X5_witness :
  exists h1 q1 t1 h2 q2,
    calculate_sharpe_ratio 0 "ret" (Fin (1 / 100)) "sharpe"
      (store_of monthly_frame) = (h1, inr q1) /\
    h1 !! q1 = Some t1 /\
    calculate_sharpe_ratio q1 "ret" (Fin (1 / 100)) "sharpe" h1
      = (h2, inr q2) /\
    h2 !! q2 = Some t1.
Proof.
  apply (X5_sharpe_again (store_of monthly_frame) 0 monthly_frame
           "ret" "sharpe" (Fin (1 / 100)%R)
           [Fin (2 / 100); Fin (3 / 100); Fin (1 / 100)]%R).
  - apply store_of_lookup.
  - reflexivity.
  - discriminate.
  - discriminate.
Defined.

Section MissingCells.

Local Open Scope R_scope.

Implicit Types (s : Series) (a : float).

Lemma fdiv_nan_r a : fdiv a NaN = NaN.
Proof. by destruct a. Qed.

Lemma dropna_series_sub_length s a :
  (length (dropna (series_sub s a)) <= length (dropna s))%nat.
Proof.
  unfold dropna, series_sub. induction s as [|b s IH]; [done|].
  cbn [map List.filter].
  assert (is_nan b = true -> is_nan (fsub b a) = true) as Hnan.
  { destruct b; [done..|]. intros _. by destruct a. }
  destruct (is_nan b).
  - rewrite Hnan by done. cbn [negb]. lia.
  - destruct (is_nan (fsub b a)); cbn [negb length]; lia.
Qed.

Lemma std_few s : (length (dropna s) <= 1)%nat -> std s = NaN.
Proof.
  intros Hlen. unfold std.
  destruct (Nat.leb (length (dropna s)) 1) eqn:E; [done|].
  apply Nat.leb_gt in E. lia.
Qed.

(** A cell that is not a number makes the whole geometric mean
    not-a-number: scipy's [gmean] skips nothing. *)
Lemma composite_annual_return_missing s :
  In NaN s -> composite_annual_return s = NaN.
Proof.
  intros Hin. unfold composite_annual_return, gmean, np_average.
  rewrite np_sum_nan; [done|].
  apply in_map_iff. exists NaN. split; [done|].
  unfold series_add. by apply (in_map (fun x => fadd x (Fin 1)) s NaN).
Qed.

End MissingCells.

(** X6. A missing cell (not-a-number) anywhere in the input column makes
    [calculate_composite_annual_return] write not-a-number into every
    row of the output column: the geometric mean skips no cell, and the
    call raises nothing. *)
Theorem X6_composite_missing_cell
  (h : store) (p : ref) (t : DataFrame) (inc out : string) (s : Series) :
  h !! p = Some t ->
  get_column inc (columns t) = Some s ->
  In NaN s ->
  exists h' q t',
    calculate_composite_annual_return p inc out h = (h', inr q) /\
    h' !! q = Some t' /\
    get_column out (columns t') = Some (repeat NaN (nrows t)).
Proof.
  intros Hp Hs Hin. eexists _, _, _. split; [|split].
  - by apply composite_run with (t := t).
  - apply lookup_insert_eq.
  - cbn [columns]. rewrite get_set_eq.
    by rewrite composite_annual_return_missing.
Qed.

Lemma X6_witness :
  exists h' q t',
    calculate_composite_annual_return 0 "ret" "annual"
      (store_of gappy_frame) = (h', inr q) /\
    h' !! q = Some t' /\
    get_column "annual" (columns t') = Some [NaN; NaN; NaN; NaN].
Proof.
  apply (X6_composite_missing_cell (store_of gappy_frame) 0 gappy_frame
           "ret" "annual"
           [Fin (2 / 100); NaN; Fin (3 / 100); Fin (1 / 100)]%R).
  - apply store_of_lookup.
  - reflexivity.
  - right. left. reflexivity.
Defined.

(** X8. When the returns column has fewer than two cells that are
    numbers (a table of one row, or an all-missing column),
    [calculate_sharpe_ratio] raises nothing and writes not-a-number into
    every row of the output column: the sample standard deviation of
    fewer than two observations is not-a-number. *)
Theorem X8_sharpe_too_few_observations
  (h : store) (p : ref) (t : DataFrame) (rc out : string) (rf : float)
  (s : Series) :
  h !! p = Some t ->
  get_column rc (columns t) = Some s ->
  length (dropna s) <= 1 ->
  exists h' q t',
    calculate_sharpe_ratio p rc rf out h = (h', inr q) /\
    h' !! q = Some t' /\
    get_column out (columns t') = Some (repeat NaN (nrows t)).
Proof.
  intros Hp Hs Hlen. eexists _, _, _. split; [|split].
  - by apply sharpe_run with (t := t).
  - apply lookup_insert_eq.
  - cbn [columns]. rewrite get_set_eq. do 2 f_equal.
    unfold sharpe_ratio. rewrite std_few; [apply fdiv_nan_r|].
    destruct (String.eqb rc "excess_returns"); [|done].
    pose proof (dropna_series_sub_length s rf). lia.
Qed.

Lemma X8_witness :
  exists h' q t',
    calculate_sharpe_ratio 0 "ret" (Fin (1 / 100)) "sharpe"
      (store_of single_frame) = (h', inr q) /\
    h' !! q = Some t' /\
    get_column "sharpe" (columns t') = Some [NaN].
Proof.
  apply (X8_sharpe_too_few_observations (store_of single_frame) 0
           single_frame "ret" "sharpe" (Fin (1 / 100)%R)
           [Fin (2 / 100)%R]).
  - apply store_of_lookup.
  - reflexivity.
  - simpl. lia.
Defined.

Lemma get_set (c c' : string) (s : Series) (cols : list (string * Series)) :
  get_column c' (set_column c s cols) =
    if String.eqb c c' then Some s else get_column c' cols.
Proof.
  destruct (String.eqb c c') eqn:E.
  - apply String.eqb_eq in E as <-. apply get_set_eq.
  - apply String.eqb_neq in E. by apply get_set_ne.
Qed.

(** X13. The two functions can be chained in either order.  When the
    label for the annual figure is none of the returns label, the Sharpe
    label and ['excess_returns'], and the returns label is neither the
    Sharpe label nor ['excess_returns'], computing the annual figure and
    then the Sharpe ratio on the result gives a table with the same rows
    and, under every label, the same column as computing them the other
    way round. *)
Theorem X13_chaining_order
  (h : store) (p : ref) (t : DataFrame) (rc annual sh : string)
  (rf : float) (s : Series) :
  h !! p = Some t ->
  get_column rc (columns t) = Some s ->
  annual <> rc ->
  annual <> sh ->
  annual <> "excess_returns" ->
  sh <> rc ->
  rc <> "excess_returns" ->
  exists hA qA hA' qA' tA hB qB hB' qB' tB,
    calculate_composite_annual_return p rc annual h = (hA, inr qA) /\
    calculate_sharpe_ratio qA rc rf sh hA = (hA', inr qA') /\
    hA' !! qA' = Some tA /\
    calculate_sharpe_ratio p rc rf sh h = (hB, inr qB) /\
    calculate_composite_annual_return qB rc annual hB = (hB', inr qB') /\
    hB' !! qB' = Some tB /\
    nrows tA = nrows tB /\
    forall c, get_column c (columns tA) = get_column c (columns tB).
Proof.
  intros Hp Hs Har Has Hae Hsr Hre.
  apply String.eqb_neq in Hre as Hreb.
  (* the annual figure first *)
  pose proof (composite_run h p t Hp rc annual s Hs) as HA1.
  set (tA1 := mkDataFrame (nrows t)
                (set_column annual
                   (repeat (composite_annual_return s) (nrows t))
                   (columns t))) in *.
  set (hA := <[fresh (dom h) := tA1]> h) in *.
  assert (hA !! fresh (dom h) = Some tA1) as HqA by apply lookup_insert_eq.
  assert (get_column rc (columns tA1) = Some s) as HsA.
  { cbn [tA1 columns]. by rewrite get_set_ne. }
  pose proof (sharpe_run hA _ tA1 HqA rc rf sh s HsA) as HA2.
  rewrite Hreb in HA2.
  (* the Sharpe ratio first *)
  pose proof (sharpe_run h p t Hp rc rf sh s Hs) as HB1.
  rewrite Hreb in HB1.
  set (tB1 := mkDataFrame (nrows t)
                (set_column sh
                   (repeat (sharpe_ratio (series_sub s rf) s) (nrows t))
                   (set_column "excess_returns" (series_sub s rf)
                      (columns t)))) in *.
  set (hB := <[fresh (dom h) := tB1]> h) in *.
  assert (hB !! fresh (dom h) = Some tB1) as HqB by apply lookup_insert_eq.
  assert (get_column rc (columns tB1) = Some s) as HsB.
  { cbn [tB1 columns]. by rewrite !get_set_ne. }
  pose proof (composite_run hB _ tB1 HqB rc annual s HsB) as HB2.
  eexists hA, _, _, _, _, hB, _, _, _, _.
  split; [exact HA1|]. split; [exact HA2|].
  split; [apply lookup_insert_eq|].
  split; [exact HB1|]. split; [exact HB2|].
  split; [apply lookup_insert_eq|].
  split; [done|].
  intros c. cbn [tA1 tB1 nrows columns]. rewrite !get_set.
  destruct (String.eqb sh c) eqn:E1; destruct (String.eqb annual c) eqn:E2;
    destruct (String.eqb "excess_returns" c) eqn:E3; try done;
    repeat match goal with
           | E : String.eqb _ _ = true |- _ => apply String.eqb_eq in E
           end; congruence.
Qed.

Lemma X13_witness :
  exists hA qA hA' qA' tA hB qB hB' qB' tB,
    calculate_composite_annual_return 0 "ret" "annual"
      (store_of monthly_frame) = (hA, inr qA) /\
    calculate_sharpe_ratio qA "ret" (Fin (1 / 100)) "sharpe" hA
      = (hA', inr qA') /\
    hA' !! qA' = Some tA /\
    calculate_sharpe_ratio 0 "ret" (Fin (1 / 100)) "sharpe"
      (store_of monthly_frame) = (hB, inr qB) /\
    calculate_composite_annual_return qB "ret" "annual" hB
      = (hB', inr qB') /\
    hB' !! qB' = Some tB /\
    nrows tA = nrows tB /\
    forall c, get_column c (columns tA) = get_column c (columns tB).
Proof.
  apply (X13_chaining_order (store_of monthly_frame) 0 monthly_frame
           "ret" "annual" "sharpe" (Fin (1 / 100)%R)
           [Fin (2 / 100); Fin (3 / 100); Fin (1 / 100)]%R).
  - apply store_of_lookup.
  - reflexivity.
  - discriminate.
  - discriminate.
  - discriminate.
  - discriminate.
  - discriminate.
Defined.

Lemma series_sub_nan (s : Series) :
  series_sub s NaN = repeat NaN (length s).
Proof.
  unfold series_sub. induction s as [|a s IH]; [done|].
  cbn [map length repeat]. rewrite IH. f_equal. by destruct a.
Qed.

Lemma dropna_repeat_nan n : dropna (repeat NaN n) = [].
Proof. induction n as [|n IH]; [done|]. simpl. exact IH. Qed.

(** X15. With not-a-number as the risk-free rate,
    [calculate_sharpe_ratio] raises nothing: every cell of
    ['excess_returns'] and (when it has another label) every row of the
    output column is not-a-number in the returned table. *)
Theorem X15_sharpe_rate_not_a_number
  (h : store) (p : ref) (t : DataFrame) (rc out : string) (s : Series) :
  h !! p = Some t ->
  get_column rc (columns t) = Some s ->
  out <> "excess_returns" ->
  exists h' q t',
    calculate_sharpe_ratio p rc NaN out h = (h', inr q) /\
    h' !! q = Some t' /\
    get_column "excess_returns" (columns t') =
      Some (repeat NaN (length s)) /\
    get_column out (columns t') = Some (repeat NaN (nrows t)).
Proof.
  intros Hp Hs Hout. eexists _, _, _.
  split; [by apply sharpe_run with (t := t)|].
  split; [apply lookup_insert_eq|].
  cbn [columns]. split.
  - rewrite get_set_ne by done. rewrite get_set_eq.
    by rewrite series_sub_nan.
  - rewrite get_set_eq. do 2 f_equal. unfold sharpe_ratio, mean.
    by rewrite series_sub_nan, dropna_repeat_nan.
Qed.

Lemma X15_witness :
  exists h' q t',
    calculate_sharpe_ratio 0 "ret" NaN "sharpe"
      (store_of monthly_frame) = (h', inr q) /\
    h' !! q = Some t' /\
    get_column "excess_returns" (columns t') = Some [NaN; NaN; NaN] /\
    get_column "sharpe" (columns t') = Some [NaN; NaN; NaN].
Proof.
  apply (X15_sharpe_rate_not_a_number (store_of monthly_frame) 0
           monthly_frame "ret" "sharpe"
           [Fin (2 / 100); Fin (3 / 100); Fin (1 / 100)]%R).
  - apply store_of_lookup.
  - reflexivity.
  - discriminate.
Defined.
